(** * Tabular Q-learning agent for Blackjack: [blackjack_agent.py]

    A shallow embedding of the class [BlackjackAgent] and the properties
    of its three public operations: construction, [action] and [learn].

    Layout of the embedding
    - Python numbers are duck-typed: the agent only adds, subtracts,
      multiplies, compares and takes absolute values.  The methods are
      therefore written once over an interface [Number], which has two
      instances: exact rationals [Q] and IEEE binary64 floats (what
      CPython's [float] is).
    - [self.q_table] is a [dict] keyed by [(state, action)]: a [gmap]
      over [string * Z].
    - A method call mutates [self] and returns or raises: a state and
      error monad [Method] over the record [Agent].
    - [random.uniform] and [random.choice] are replaced by the values
      they draw, passed in explicitly as a [Draw]. *)

From Stdlib Require Import QArith Qabs Qpower Lqa Floats Uint63 Ascii.
From stdpp Require Import gmap strings list fin_maps pretty.

Local Open Scope Z_scope.

(** ** Numbers *)

(** The arithmetic the agent needs from its values.  [num_of_Q] reads a
    numeric literal; [num_gt] is Python's [>] (the test of the builtin
    [max], and of [<] with its operands swapped); [num_eq] is the test of
    [list.index], which accepts an item that is the searched object or is
    [==] to it. *)
Class Number (num : Type) := {
  num_of_Q : Q → num;
  num_add : num → num → num;
  num_sub : num → num → num;
  num_mul : num → num → num;
  num_abs : num → num;
  num_gt : num → num → bool;
  num_eq : num → num → bool
}.

(** Exact arithmetic. *)
#[export] Instance Q_Number : Number Q := {|
  num_of_Q := λ q, q;
  num_add := Qplus;
  num_sub := Qminus;
  num_mul := Qmult;
  num_abs := Qabs;
  num_gt := λ x y, negb (Qle_bool x y);
  num_eq := Qeq_bool
|}.

(** Binary64 arithmetic.  An integer below 2^63 is converted as the
    hardware does; a literal [n/d] is the correctly rounded quotient of
    its two (exactly representable) parts, so that [1#10] is the double
    nearest to one tenth, as the Python literal [0.1] is.  A NaN is [==]
    to nothing, itself included, but [list.index] still finds the NaN
    object it is handed; in this program that object is always an item of
    the searched list, which [num_eq] renders by matching NaN with NaN. *)
Definition float_of_Z (z : Z) : float :=
  match z with
  | Z0 => PrimFloat.zero
  | Zpos _ => PrimFloat.of_uint63 (Uint63.of_Z z)
  | Zneg p => PrimFloat.opp (PrimFloat.of_uint63 (Uint63.of_Z (Zpos p)))
  end.

Definition float_of_Q (q : Q) : float :=
  PrimFloat.div (float_of_Z (Qnum q)) (float_of_Z (Zpos (Qden q))).

#[export] Instance float_Number : Number float := {|
  num_of_Q := float_of_Q;
  num_add := PrimFloat.add;
  num_sub := PrimFloat.sub;
  num_mul := PrimFloat.mul;
  num_abs := PrimFloat.abs;
  num_gt := λ x y, PrimFloat.ltb y x;
  num_eq := λ x y,
    PrimFloat.eqb x y || (PrimFloat.is_nan x && PrimFloat.is_nan y)
|}.

(** ** Observations and their [str] *)

(** The observations covered: integers, booleans, strings and flat tuples
    of integers and booleans (the Blackjack observation is the tuple of the
    player's total, the dealer's card and the usable-ace flag). *)
Inductive scalar : Type :=
  | SInt (z : Z)
  | SBool (b : bool).

Inductive obs : Type :=
  | OScalar (x : scalar)
  | OStr (s : string)
  | OTuple (xs : list scalar).

Definition str_scalar (x : scalar) : string :=
  match x with
  | SInt z => pretty z
  | SBool true => "True"
  | SBool false => "False"
  end.

(** [", ".join(...)] *)
Fixpoint join_comma (l : list string) : string :=
  match l with
  | [] => ""
  | [s] => s
  | s :: rest => s +:+ ", " +:+ join_comma rest
  end.

(** Python's [str]: the decimal numeral of an integer, [True]/[False], a
    string itself, and for a tuple its items between parentheses, a
    one-item tuple with its trailing comma. *)
Definition str (o : obs) : string :=
  match o with
  | OScalar x => str_scalar x
  | OStr s => s
  | OTuple [x] => "(" +:+ str_scalar x +:+ ",)"
  | OTuple xs => "(" +:+ join_comma (str_scalar <$> xs) +:+ ")"
  end.

(** Python's [==] on these values: [bool] is a subclass of [int], so
    [True == 1] and [False == 0]; a string equals only an equal string;
    tuples are compared item by item. *)
Definition int_of_scalar (x : scalar) : Z :=
  match x with
  | SInt z => z
  | SBool true => 1
  | SBool false => 0
  end.

Definition py_eq_scalar (x y : scalar) : bool :=
  bool_decide (int_of_scalar x = int_of_scalar y).

Fixpoint py_eq_items (xs ys : list scalar) : bool :=
  match xs, ys with
  | [], [] => true
  | x :: xs', y :: ys' => py_eq_scalar x y && py_eq_items xs' ys'
  | _, _ => false
  end.

Definition py_eq (o1 o2 : obs) : bool :=
  match o1, o2 with
  | OScalar x, OScalar y => py_eq_scalar x y
  | OStr s, OStr t => bool_decide (s = t)
  | OTuple xs, OTuple ys => py_eq_items xs ys
  | _, _ => false
  end.




(** ** The agent *)

Inductive exn : Type :=
  | TypeError
  | ValueError
  | IndexError.

Inductive result (A : Type) : Type :=
  | Ok (a : A)
  | Raise (e : exn).
Arguments Ok {A} a.
Arguments Raise {A} e.

Section Agent.
Context {num : Type} `{Number num}.

Record Agent : Type := mkAgent {
  q_table : gmap (string * Z) num;
  learning_rate : num;
  discount_factor : num;
  exploration_rate : num;
  actions : list Z
}.

(** A method: runs on [self], leaves [self] possibly changed, and
    returns a value or raises. *)
Definition Method (A : Type) : Type := Agent → result A * Agent.

Definition ret {A} (a : A) : Method A := λ self, (Ok a, self).

Definition bind {A B} (m : Method A) (k : A → Method B) : Method B :=
  λ self,
    match m self with
    | (Ok a, self') => k a self'
    | (Raise e, self') => (Raise e, self')
    end.

(** Reading an attribute of [self]. *)
Definition attr {A} (field : Agent → A) : Method A :=
  λ self, (Ok (field self), self).

(** The agent with its table replaced, its other attributes kept. *)
Definition with_q_table (self : Agent) (q : gmap (string * Z) num) : Agent :=
  mkAgent q (learning_rate self) (discount_factor self)
    (exploration_rate self) (actions self).

(** [self.q_table[key] = value] *)
Definition q_table_setitem (key : string * Z) (value : num) : Method unit :=
  λ self, (Ok (), with_q_table self (<[key := value]> (q_table self))).

(** [d.get(key, default)] *)
Definition dict_get (d : gmap (string * Z) num) (key : string * Z)
    (default : num) : num :=
  match d !! key with
  | Some v => v
  | None => default
  end.

(** The builtin [max] of a sequence: the first item is kept until a
    later one is strictly greater; [ValueError] on an empty sequence. *)
Definition py_max_from (first : num) (rest : list num) : num :=
  foldl (λ best x, if num_gt x best then x else best) first rest.

Definition py_max (values : list num) : result num :=
  match values with
  | [] => Raise ValueError
  | v :: rest => Ok (py_max_from v rest)
  end.

(** [values.index(x)]: the position of the first item equal to [x];
    [ValueError] when there is none. *)
Fixpoint py_index (values : list num) (x : num) : result nat :=
  match values with
  | [] => Raise ValueError
  | v :: rest =>
      if num_eq v x then Ok 0%nat
      else match py_index rest x with
           | Ok i => Ok (S i)
           | Raise e => Raise e
           end
  end.

(** [seq[i]] *)
Definition py_getitem {A} (seq : list A) (i : nat) : result A :=
  match seq !! i with
  | Some a => Ok a
  | None => Raise IndexError
  end.

Definition lift {A} (r : result A) : Method A := λ self, (r, self).

#[export] Instance Method_ret : MRet Method := @ret.
#[export] Instance Method_bind : MBind Method := λ A B k m, bind m k.

Definition num_lt (x y : num) : bool := num_gt y x.

Declare Scope num_scope.
Notation "0" := (num_of_Q 0%Q) : num_scope.
Notation "1" := (num_of_Q 1%Q) : num_scope.
Infix "+" := num_add : num_scope.
Infix "-" := num_sub : num_scope.
Infix "*" := num_mul : num_scope.
Local Open Scope num_scope.

(** What the module [random] hands out during one call of [action]:
    the number [random.uniform(0, 1)] returns and the integer from which
    [random.choice] takes its position. *)
Record Draw : Type := mkDraw {
  uniform : num;
  randbits : nat
}.

(** [random.choice(seq)]: the item at a position below [len(seq)];
    [IndexError] on an empty sequence. *)
Definition py_choice {A} (rnd : Draw) (seq : list A) : result A :=
  match seq with
  | [] => Raise IndexError
  | _ => py_getitem seq (randbits rnd mod length seq)%nat
  end.

(** The arguments of a constructor call. *)
Inductive arg : Type :=
  | ANum (x : num)
  | AActions (l : list Z).

(** The attributes the body of [__init__] assigns. *)
Definition fresh : Agent :=
  {| q_table := ∅;
     learning_rate := num_of_Q (1 # 10);
     discount_factor := num_of_Q (9 # 10);
     exploration_rate := num_of_Q (1 # 10);
     actions := [0; 1]%Z |}.

(** [BlackjackAgent(...)].  [__init__] has no parameter besides [self],
    so a call that passes anything raises [TypeError] before the body
    runs. *)
Definition __init__ (kwargs : list (string * arg)) : result Agent :=
  match kwargs with
  | [] => Ok fresh
  | _ :: _ => Raise TypeError
  end.

Definition _get_state (observation : obs) : string := str observation.

Definition _get_best_action (state : string) : Method Z :=
  q ← attr q_table;
  acts ← attr actions;
  let values := (λ a, dict_get q (state, a) 0) <$> acts in
  best ← lift (py_max values);
  i ← lift (py_index values best);
  lift (py_getitem acts i).

Definition action (rnd : Draw) (observation : obs) (exploit_only : bool)
    : Method Z :=
  eps ← attr exploration_rate;
  if negb exploit_only && num_lt (uniform rnd) eps then
    acts ← attr actions;
    lift (py_choice rnd acts)
  else
    let state := _get_state observation in
    _get_best_action state.

Definition learn (action : Z) (observation : obs) (reward : num)
    (terminated : bool) (next_observation : obs) : Method num :=
  let current_state := _get_state observation in
  let next_state := _get_state next_observation in
  q ← attr q_table;
  acts ← attr actions;
  let old_value := dict_get q (current_state, action) 0 in
  next_max ← lift (py_max ((λ a, dict_get q (next_state, a) 0) <$> acts));
  alpha ← attr learning_rate;
  gamma ← attr discount_factor;
  let new_value :=
    (1 - alpha) * old_value + alpha * (reward + gamma * next_max) in
  _ ← q_table_setitem (current_state, action) new_value;
  let error := num_abs (old_value - new_value) in
  mret error.

(** *** Vocabulary of the statements *)

(** The table values of every action at [state], in the order of
    [self.actions], an absent entry read as [0]. *)
Definition values_at (self : Agent) (state : string) : list num :=
  (λ a, dict_get (q_table self) (state, a) 0) <$> actions self.

(** The value [learn] stores. *)
Definition td_update (alpha gamma old reward next_max : num) : num :=
  (1 - alpha) * old + alpha * (reward + gamma * next_max).

(** Two agents with the same four settings. *)
Definition same_settings (ag ag' : Agent) : Prop :=
  learning_rate ag' = learning_rate ag
  ∧ discount_factor ag' = discount_factor ag
  ∧ exploration_rate ag' = exploration_rate ag
  ∧ actions ag' = actions ag.

(** The agent a call leaves behind, whether it returned or raised. *)
Definition after {A} (m : Method A) (self : Agent) : Agent := snd (m self).

(** [n] calls of [learn] in a row with the same arguments. *)
Fixpoint repeat_learn (n : nat) (action : Z) (observation : obs)
    (reward : num) (terminated : bool) (next_observation : obs)
    (self : Agent) : Agent :=
  match n with
  | O => self
  | S k =>
      after (learn action observation reward terminated next_observation)
        (repeat_learn k action observation reward terminated
           next_observation self)
  end.

(** A caller's use of the agent: any sequence of the two public calls. *)
Inductive call : Type :=
  | CallAction (rnd : Draw) (observation : obs) (exploit_only : bool)
  | CallLearn (action : Z) (observation : obs) (reward : num)
      (terminated : bool) (next_observation : obs).

Definition run_call (self : Agent) (c : call) : Agent :=
  match c with
  | CallAction rnd o e => after (action rnd o e) self
  | CallLearn a o r t o' => after (learn a o r t o') self
  end.

Definition run_calls (self : Agent) (cs : list call) : Agent :=
  foldl run_call self cs.

End Agent.

Arguments Agent num : clear implicits.
Arguments call num : clear implicits.
Arguments Method num : clear implicits.
Arguments Draw num : clear implicits.
Arguments arg num : clear implicits.

(** The agent of the worked example: [table[("B",0)] = 0],
    [table[("B",1)] = 10], learning rate one half, discount factor nine
    tenths, no exploration. *)
Definition example_agent {num} `{Number num} : Agent num :=
  {| q_table := <[("B", 1) := num_of_Q 10]> (<[("B", 0) := num_of_Q 0]> ∅);
     learning_rate := num_of_Q (1 # 2);
     discount_factor := num_of_Q (9 # 10);
     exploration_rate := num_of_Q 0;
     actions := [0; 1] |}.

(** The agent of the convergence test: a fresh table, learning rate
    one half, discount factor zero. *)
Definition toy_agent {num} `{Number num} : Agent num :=
  {| q_table := ∅;
     learning_rate := num_of_Q (1 # 2);
     discount_factor := num_of_Q 0;
     exploration_rate := num_of_Q (1 # 10);
     actions := [0; 1] |}.

(** An agent with a tie away from the head of its action list: the
    actions are enumerated [2], [0], [1]; at state ["B"] action [2] and
    action [0] are both worth 7 and action [1] is worth 3. *)
Definition tie_agent {num} `{Number num} : Agent num :=
  {| q_table :=
       <[("B", 1) := num_of_Q 3]>
         (<[("B", 0) := num_of_Q 7]> (<[("B", 2) := num_of_Q 7]> ∅));
     learning_rate := num_of_Q (1 # 10);
     discount_factor := num_of_Q (9 # 10);
     exploration_rate := num_of_Q (1 # 10);
     actions := [2; 0; 1] |}.



(** The value the table holds for an action at an observation, [0] when
    there is no entry. *)
Definition stored {num} `{Number num} (ag : Agent num) (o : obs) (a : Z)
    : num :=
  dict_get (q_table ag) (_get_state o, a) (num_of_Q 0).

(** The hyperparameter ranges of the specification. *)
Definition valid_learning_rate (alpha : Q) : Prop := (0 < alpha ∧ alpha <= 1)%Q.
Definition valid_unit_interval (x : Q) : Prop := (0 <= x ∧ x <= 1)%Q.

(** The calls of a sequence that are calls of [learn]. *)
Definition is_learn {num} (c : call num) : Prop :=
  match c with
  | CallLearn _ _ _ _ _ => True
  | CallAction _ _ _ => False
  end.

#[export] Instance is_learn_dec {num} (c : call num) : Decision (is_learn c).
Proof. destruct c; simpl; apply _. Defined.

(** Whether [action] takes its exploring branch: [exploit_only] is off
    and the number drawn is below [self.exploration_rate]. *)
Definition explores {num} `{Number num} (ag : Agent num) (rnd : Draw num)
    (exploit_only : bool) : bool :=
  negb exploit_only && num_lt (uniform rnd) (exploration_rate ag).

(** Every value the table stores is within [M] of zero. *)
Definition bounded_table (M : Q) (q : gmap (string * Z) Q) : Prop :=
  ∀ k v, q !! k = Some v → (Qabs v <= M)%Q.

(** Every reward passed to [learn] in a sequence of calls is within [R]
    of zero. *)
Definition reward_within (R : Q) (c : call Q) : Prop :=
  match c with
  | CallLearn _ _ r _ _ => (Qabs r <= R)%Q
  | CallAction _ _ _ => True
  end.

(** The target [learn] moves the stored value towards. *)
Definition td_target (gamma reward next_max : Q) : Q :=
  (reward + gamma * next_max)%Q.

(** An observation that is a string. *)
Definition is_str (o : obs) : bool :=
  match o with
  | OStr _ => true
  | _ => false
  end.

(** The characters of a decimal numeral, and those that delimit the items
    of a tuple in its [str]. *)
Definition numeral_char (c : ascii) : bool :=
  bool_decide (c ∈ ["0"; "1"; "2"; "3"; "4"; "5"; "6"; "7"; "8"; "9"; "-"]%char).

Definition delimiter (c : ascii) : bool :=
  bool_decide (c ∈ [","; "("; ")"]%char).

Fixpoint all_chars (P : ascii → bool) (s : string) : bool :=
  match s with
  | EmptyString => true
  | String c rest => P c && all_chars P rest
  end.

Definition numeral (s : string) : bool := all_chars numeral_char s.

Definition plain (s : string) : bool := all_chars (λ c, negb (delimiter c)) s.

(** * Properties *)

(** ** The monad and the builtins, for any arithmetic *)

Section Generic.
Context {num : Type} `{Number num}.

Lemma py_max_nonempty (values : list num) :
  values ≠ [] → ∃ m, py_max values = Ok m.
Proof. destruct values as [|v rest]; [done|]. intros _. by eexists. Qed.

Lemma values_at_nonempty (ag : Agent num) (state : string) :
  actions ag ≠ [] → values_at ag state ≠ [].
Proof. unfold values_at. by destruct (actions ag). Qed.

(** [learn] when the maximum exists: one store, and the error returned. *)
Lemma learn_run (ag : Agent num) a o r t o' next_max :
  py_max (values_at ag (_get_state o')) = Ok next_max →
  let old := dict_get (q_table ag) (_get_state o, a) (num_of_Q 0) in
  let new := td_update (learning_rate ag) (discount_factor ag) old r next_max in
  learn a o r t o' ag =
    (Ok (num_abs (num_sub old new)),
     with_q_table ag (<[(_get_state o, a) := new]> (q_table ag))).
Proof.
  intros Hmax. unfold learn, values_at in *.
  unfold mbind, Method_bind, bind, attr, lift. simpl.
  rewrite Hmax. reflexivity.
Qed.

(** [learn] when [max] raises: nothing is stored. *)
Lemma learn_raise (ag : Agent num) a o r t o' e :
  py_max (values_at ag (_get_state o')) = Raise e →
  learn a o r t o' ag = (Raise e, ag).
Proof.
  intros Hmax. unfold learn, values_at in *.
  unfold mbind, Method_bind, bind, attr, lift. simpl.
  rewrite Hmax. reflexivity.
Qed.

Lemma learn_cases (ag : Agent num) a o r t o' :
  (∃ err new, learn a o r t o' ag =
     (Ok err, with_q_table ag (<[(_get_state o, a) := new]> (q_table ag))))
  ∨ (∃ e, learn a o r t o' ag = (Raise e, ag)).
Proof.
  destruct (py_max (values_at ag (_get_state o'))) as [m|e] eqn:Hmax.
  - left. do 2 eexists. by apply learn_run.
  - right. eexists. by apply learn_raise.
Qed.

(** [action] never assigns to [self]. *)
Lemma get_best_action_pure (ag : Agent num) state :
  snd (_get_best_action state ag) = ag.
Proof.
  unfold _get_best_action, mbind, Method_bind, bind, attr, lift. simpl.
  destruct (py_max _) as [m|e]; [|done].
  destruct (py_index _ m) as [i|e]; [|done].
  by destruct (py_getitem _ i).
Qed.

Lemma action_pure (ag : Agent num) rnd o e :
  after (action rnd o e) ag = ag.
Proof.
  unfold after, action, mbind, Method_bind, bind, attr, lift. simpl.
  destruct (negb e && _).
  - by destruct (py_choice rnd (actions ag)).
  - apply get_best_action_pure.
Qed.

(** No call touches the four settings. *)
Lemma learn_same_settings (ag : Agent num) a o r t o' :
  same_settings ag (after (learn a o r t o') ag).
Proof.
  unfold after.
  destruct (learn_cases ag a o r t o') as [(err & new & ->)|(e & ->)];
    by repeat split.
Qed.

Lemma run_call_same_settings (ag : Agent num) (c : call num) :
  same_settings ag (run_call ag c).
Proof.
  destruct c as [rnd o e|a o r t o']; simpl.
  - rewrite action_pure. by repeat split.
  - apply learn_same_settings.
Qed.

Lemma run_calls_same_settings (cs : list (call num)) (ag : Agent num) :
  same_settings ag (run_calls ag cs).
Proof.
  unfold run_calls. revert ag.
  induction cs as [|c cs IH]; intros ag; simpl; [by repeat split|].
  destruct (run_call_same_settings ag c) as (H1 & H2 & H3 & H4).
  destruct (IH (run_call ag c)) as (K1 & K2 & K3 & K4).
  repeat split; congruence.
Qed.

(** The keys of the table after one call include those before. *)
Lemma run_call_dom (ag : Agent num) (c : call num) :
  dom (q_table ag) ⊆ dom (q_table (run_call ag c)).
Proof.
  destruct c as [rnd o e|a o r t o']; simpl.
  - by rewrite action_pure.
  - unfold after.
    destruct (learn_cases ag a o r t o') as [(err & new & ->)|(e & ->)];
      simpl; [|done].
    rewrite dom_insert_L. set_solver.
Qed.

Lemma run_calls_dom (cs : list (call num)) (ag : Agent num) :
  dom (q_table ag) ⊆ dom (q_table (run_calls ag cs)).
Proof.
  unfold run_calls. revert ag.
  induction cs as [|c cs IH]; intros ag; simpl; [done|].
  etrans; [apply (run_call_dom ag c)|apply IH].
Qed.

(** What [list.index] returns. *)
Lemma py_index_Ok (values : list num) x i :
  py_index values x = Ok i →
  ∃ v, values !! i = Some v ∧ num_eq v x = true
       ∧ ∀ j w, (j < i)%nat → values !! j = Some w → num_eq w x = false.
Proof.
  revert i. induction values as [|v rest IH]; intros i; simpl; [done|].
  destruct (num_eq v x) eqn:Hv.
  - intros [= <-]. exists v. repeat split; [done|]. intros j w Hj. lia.
  - destruct (py_index rest x) as [k|]; [|done].
    intros [= <-]. destruct (IH k eq_refl) as (u & Hu & Heq & Hbefore).
    exists u. repeat split; [done..|].
    intros [|j] w Hj; simpl; [by intros [= <-]|].
    apply Hbefore. lia.
Qed.

Lemma py_index_finds (values : list num) x v :
  v ∈ values → num_eq v x = true → ∃ i, py_index values x = Ok i.
Proof.
  induction 1 as [v rest|v u rest _ IH]; intros Hv; simpl.
  - rewrite Hv. by eexists.
  - destruct (num_eq u x); [by eexists|].
    destruct (IH Hv) as [i ->]. by eexists.
Qed.

End Generic.

(** C2.  The flag [terminated] takes no part in [learn]: two calls that
    differ only in it return the same error and leave the same agent. *)
Theorem learn_ignores_terminated {num} `{Number num} (ag : Agent num)
    (a : Z) (o : obs) (r : num) (o' : obs) (t1 t2 : bool) :
  learn a o r t1 o' ag = learn a o r t2 o' ag.
Proof. reflexivity. Qed.

(** ** Exact arithmetic: [max] and the greedy choice *)

Lemma Q_gt_true (x y : Q) : num_gt x y = true ↔ (y < x)%Q.
Proof.
  simpl. rewrite negb_true_iff, <- not_true_iff_false, Qle_bool_iff.
  split; [apply Qnot_le_lt | apply Qlt_not_le].
Qed.

Lemma Q_gt_false (x y : Q) : num_gt x y = false ↔ (x <= y)%Q.
Proof. simpl. by rewrite negb_false_iff, Qle_bool_iff. Qed.

Lemma Q_eq_true (x y : Q) : num_eq x y = true ↔ (x == y)%Q.
Proof. simpl. apply Qeq_bool_iff. Qed.

(** The builtin [max] returns an item of the sequence that no item
    exceeds. *)
Lemma py_max_from_Q (rest : list Q) (v : Q) :
  py_max_from v rest ∈ v :: rest
  ∧ ∀ x, x ∈ v :: rest → (x <= py_max_from v rest)%Q.
Proof.
  unfold py_max_from. revert v.
  induction rest as [|u rest IH]; intros v; cbn [foldl].
  - split; [left|]. intros x ->%list_elem_of_singleton. apply Qle_refl.
  - destruct (num_gt u v) eqn:Hgt.
    + apply (Q_gt_true u v) in Hgt.
      destruct (IH u) as [Hin Hle]. split.
      * right. exact Hin.
      * intros x [->|Hx]%elem_of_cons.
        -- apply Qle_trans with u; [by apply Qlt_le_weak|]. apply Hle. left.
        -- by apply Hle.
    + apply (Q_gt_false u v) in Hgt.
      destruct (IH v) as [Hin Hle]. split.
      * apply elem_of_cons in Hin as [->|Hin]; [left|]. by do 2 right.
      * intros x [->|[->|Hx]%elem_of_cons]%elem_of_cons.
        -- apply Hle. left.
        -- apply Qle_trans with v; [done|]. apply Hle. left.
        -- apply Hle. by right.
Qed.

Lemma py_max_Q (values : list Q) (m : Q) :
  py_max values = Ok m → m ∈ values ∧ ∀ x, x ∈ values → (x <= m)%Q.
Proof.
  destruct values as [|v rest]; simpl; [done|].
  intros [= <-]. apply py_max_from_Q.
Qed.

(** The greedy choice: the first action, in the order of [self.actions],
    whose value no action exceeds. *)
Lemma get_best_action_Q (ag : Agent Q) (state : string) :
  actions ag ≠ [] →
  ∃ (i : nat) (a : Z),
    _get_best_action state ag = (Ok a, ag)
    ∧ actions ag !! i = Some a
    ∧ (∀ a', a' ∈ actions ag →
         (dict_get (q_table ag) (state, a') 0 <=
          dict_get (q_table ag) (state, a) 0)%Q)
    ∧ (∀ j a', (j < i)%nat → actions ag !! j = Some a' →
         (dict_get (q_table ag) (state, a') 0 <
          dict_get (q_table ag) (state, a) 0)%Q).
Proof.
  intros Hne.
  destruct (py_max_nonempty (values_at ag state)) as [m Hm];
    [by apply values_at_nonempty|].
  destruct (py_max_Q _ _ Hm) as [Hin Hle].
  destruct (py_index_finds (values_at ag state) m m Hin) as [i Hi];
    [by apply Q_eq_true|].
  destruct (py_index_Ok _ _ _ Hi) as (v & Hv & Hvm & Hbefore).
  apply Q_eq_true in Hvm.
  unfold values_at in Hv. rewrite list_lookup_fmap in Hv.
  destruct (actions ag !! i) as [a|] eqn:Ha; [|done].
  simpl in Hv. injection Hv as Hv.
  exists i, a. split; [|split; [done|split]].
  - unfold _get_best_action, mbind, Method_bind, bind, attr, lift.
    cbv beta iota. fold (values_at ag state). rewrite Hm, Hi.
    unfold py_getitem. by rewrite Ha.
  - intros a' Ha'. rewrite Hv, Hvm. apply Hle.
    unfold values_at. apply list_elem_of_fmap. by exists a'.
  - intros j a' Hj Ha'. rewrite Hv.
    assert (values_at ag state !! j
            = Some (dict_get (q_table ag) (state, a') 0%Q)) as Hw.
    { unfold values_at. rewrite list_lookup_fmap, Ha'. done. }
    specialize (Hbefore j _ Hj Hw).
    assert (dict_get (q_table ag) (state, a') 0 <= m)%Q as Hle'.
    { apply Hle. by eapply list_elem_of_lookup_2. }
    apply Qle_lteq in Hle' as [Hlt|Heq]; [by rewrite Hvm|].
    apply Q_eq_true in Heq. congruence.
Qed.

(** ** The update rule *)

(** [learn] on an agent with an action, read off the table before and
    after the call: [next_max] is the value of some action at the next
    state and no action has a greater one. *)
Lemma learn_lookup_Q (ag : Agent Q) a o r t o' :
  actions ag ≠ [] →
  ∃ next_max : Q,
    (∃ a', a' ∈ actions ag
           ∧ next_max = default 0%Q (q_table ag !! (_get_state o', a')))
    ∧ (∀ a', a' ∈ actions ag →
         (default 0%Q (q_table ag !! (_get_state o', a')) <= next_max)%Q)
    ∧ let old := default 0%Q (q_table ag !! (_get_state o, a)) in
      let new :=
        ((1 - learning_rate ag) * old
         + learning_rate ag * (r + discount_factor ag * next_max))%Q in
      fst (learn a o r t o' ag) = Ok (Qabs (old - new))
      ∧ q_table (after (learn a o r t o') ag) !! (_get_state o, a)
        = Some new.
Proof.
  intros Hne.
  destruct (py_max_nonempty (values_at ag (_get_state o'))) as [m Hm];
    [by apply values_at_nonempty|].
  destruct (py_max_Q _ _ Hm) as [Hin Hle].
  pose proof (learn_run ag a o r t o' m Hm) as Hrun. cbv zeta in Hrun.
  exists m. split; [|split; [|split]].
  - unfold values_at in Hin.
    apply list_elem_of_fmap in Hin as (a' & -> & Ha'). by exists a'.
  - intros a' Ha'. apply Hle. unfold values_at.
    apply list_elem_of_fmap. by exists a'.
  - by rewrite Hrun.
  - unfold after. rewrite Hrun. cbn [snd q_table with_q_table].
    apply lookup_insert_eq.
Qed.

(** The maximum at state ["B"] of the worked example is 10. *)
Lemma example_next_max (m : Q) :
  (∃ a', a' ∈ actions (example_agent (num:=Q))
         ∧ m = default 0%Q (q_table example_agent !! ("B", a'))) →
  (∀ a', a' ∈ actions (example_agent (num:=Q)) →
     (default 0%Q (q_table example_agent !! ("B", a')) <= m)%Q) →
  m = 10%Q.
Proof.
  intros (a' & Ha' & ->) Hle. cbn [actions example_agent] in Ha'.
  apply elem_of_cons in Ha' as [->|Ha']; [|by apply list_elem_of_singleton in Ha' as ->].
  exfalso. specialize (Hle 1 ltac:(cbn [actions example_agent]; set_solver)).
  by vm_compute in Hle.
Qed.

(** C1.  [learn] reads [old] at [(state, action)] and the maximum
    [next_max] of the values at the next state, both with [0] for an
    absent entry, stores [(1 - alpha) * old + alpha * (reward + gamma *
    next_max)] at [(state, action)] and returns [abs(old - new)]: the table
    after the call holds that value under that key.  This for any
    arithmetic, [next_max] being what the builtin [max] returns; in exact
    arithmetic [next_max] is the value of one of the actions and no action
    has a greater one.  In the worked example the value found in the table
    at [("A", 1)] after the call and the returned error are 4.5, in exact
    arithmetic and in binary64 alike, and the entries of ["B"] are as
    before. *)
Theorem learn_update_rule :
  (∀ (num : Type) (N : Number num) (ag : Agent num) (a : Z) (o : obs)
     (r : num) (t : bool) (o' : obs),
     actions ag ≠ [] →
     ∃ next_max : num,
       let old := default (num_of_Q 0) (q_table ag !! (_get_state o, a)) in
       let new :=
         num_add (num_mul (num_sub (num_of_Q 1) (learning_rate ag)) old)
           (num_mul (learning_rate ag)
              (num_add r (num_mul (discount_factor ag) next_max))) in
       py_max ((λ a', default (num_of_Q 0)
                        (q_table ag !! (_get_state o', a')))
                 <$> actions ag) = Ok next_max
       ∧ fst (learn a o r t o' ag) = Ok (num_abs (num_sub old new))
       ∧ q_table (after (learn a o r t o') ag) !! (_get_state o, a)
         = Some new
       ∧ learn a o r t o' ag =
           (Ok (num_abs (num_sub old new)),
            with_q_table ag (<[(_get_state o, a) := new]> (q_table ag))))
  ∧ (∀ (ag : Agent Q) (a : Z) (o : obs) (r : Q) (t : bool) (o' : obs),
       actions ag ≠ [] →
       ∃ next_max : Q,
         (∃ a', a' ∈ actions ag
                ∧ next_max = default 0%Q (q_table ag !! (_get_state o', a')))
         ∧ (∀ a', a' ∈ actions ag →
              (default 0%Q (q_table ag !! (_get_state o', a'))
               <= next_max)%Q)
         ∧ let old := default 0%Q (q_table ag !! (_get_state o, a)) in
           let new :=
             ((1 - learning_rate ag) * old
              + learning_rate ag * (r + discount_factor ag * next_max))%Q in
           fst (learn a o r t o' ag) = Ok (Qabs (old - new))
           ∧ q_table (after (learn a o r t o') ag) !! (_get_state o, a)
             = Some new)
  ∧ (∃ err new : Q,
       fst (learn 1 (OStr "A") 0%Q false (OStr "B") example_agent) = Ok err
       ∧ q_table (after (learn 1 (OStr "A") 0%Q false (OStr "B"))
                    example_agent) !! ("A", 1) = Some new
       ∧ (err == 4.5)%Q ∧ (new == 4.5)%Q
       ∧ q_table (after (learn 1 (OStr "A") 0%Q false (OStr "B"))
                    example_agent) !! ("B", 0) = Some 0%Q
       ∧ q_table (after (learn 1 (OStr "A") 0%Q false (OStr "B"))
                    example_agent) !! ("B", 1) = Some 10%Q)
  ∧ (fst (learn 1 (OStr "A") 0%float false (OStr "B") example_agent)
     = Ok 4.5%float
     ∧ q_table (after (learn 1 (OStr "A") 0%float false (OStr "B"))
                  example_agent) !! ("A", 1) = Some 4.5%float
     ∧ q_table (after (learn 1 (OStr "A") 0%float false (OStr "B"))
                  example_agent) !! ("B", 0) = Some 0%float
     ∧ q_table (after (learn 1 (OStr "A") 0%float false (OStr "B"))
                  example_agent) !! ("B", 1) = Some 10%float).
Proof.
  split; [|split; [|split]].
  - intros num N ag a o r t o' Hne.
    destruct (py_max_nonempty (values_at ag (_get_state o'))) as [m Hm];
      [by apply values_at_nonempty|].
    pose proof (learn_run ag a o r t o' m Hm) as Hrun. cbv zeta in Hrun.
    exists m. cbv zeta. split; [exact Hm|].
    split; [by rewrite Hrun|]. split; [|exact Hrun].
    unfold after. rewrite Hrun. cbn [snd q_table with_q_table].
    apply lookup_insert_eq.
  - exact learn_lookup_Q.
  - eexists _, _. split; [by vm_compute|]. split; [by vm_compute|].
    by vm_compute.
  - by vm_compute.
Qed.

Lemma learn_update_rule_witness :
  ∃ new : Q,
    q_table (after (learn 1 (OStr "A") 0%Q true (OStr "B")) example_agent)
      !! ("A", 1) = Some new
    ∧ fst (learn 1 (OStr "A") 0%Q true (OStr "B") example_agent)
      = Ok (Qabs (0 - new))
    ∧ (new == 9 # 2)%Q.
Proof.
  destruct (proj1 (proj2 learn_update_rule) example_agent 1 (OStr "A") 0%Q
              true (OStr "B")) as (m & Hin & Hle & Hret & Hnew).
  - discriminate.
  - rewrite (example_next_max m Hin Hle) in Hret, Hnew.
    eexists. split; [exact Hnew|]. split; [exact Hret|]. reflexivity.
Defined.

(** C3.  Among the actions whose table value is maximal, the greedy
    choice is the first in the order of [self.actions]: it is an item of
    the list, no action has a greater value in the table, and every action
    before it in the list has a strictly smaller one.  So at state ["B"]
    of the worked example, where action [1] is worth 10 and action [0]
    nothing, the choice is [1]; where the actions are listed [2], [0], [1]
    and the first two tie at the top, the choice is [2]; and a freshly
    constructed agent answers action [0] to every observation when
    [exploit_only] is set. *)
Theorem greedy_picks_first_maximum :
  (∀ (ag : Agent Q) (state : string),
     actions ag ≠ [] →
     ∃ (i : nat) (a : Z),
       _get_best_action state ag = (Ok a, ag)
       ∧ actions ag !! i = Some a
       ∧ (∀ a', a' ∈ actions ag →
            (default 0%Q (q_table ag !! (state, a')) <=
             default 0%Q (q_table ag !! (state, a)))%Q)
       ∧ (∀ j a', (j < i)%nat → actions ag !! j = Some a' →
            (default 0%Q (q_table ag !! (state, a')) <
             default 0%Q (q_table ag !! (state, a)))%Q))
  ∧ (_get_best_action "B" (example_agent (num:=Q)) = (Ok 1, example_agent)
     ∧ _get_best_action "B" (tie_agent (num:=Q)) = (Ok 2, tie_agent)
     ∧ _get_best_action "B" (example_agent (num:=float))
       = (Ok 1, example_agent)
     ∧ _get_best_action "B" (tie_agent (num:=float)) = (Ok 2, tie_agent))
  ∧ (∀ (rnd : Draw Q) (o : obs),
       __init__ [] = Ok fresh ∧ action rnd o true fresh = (Ok 0, fresh))
  ∧ (∀ (rnd : Draw float) (o : obs),
       __init__ [] = Ok fresh ∧ action rnd o true fresh = (Ok 0, fresh)).
Proof.
  split; [exact get_best_action_Q|].
  split; [by vm_compute|].
  split; intros rnd o; (split; [reflexivity|]);
    unfold action, _get_best_action, mbind, Method_bind, bind, attr, lift;
    cbn [negb andb fresh q_table actions exploration_rate fmap list_fmap];
    unfold dict_get; rewrite !lookup_empty; reflexivity.
Qed.

Lemma greedy_picks_first_maximum_witness :
  _get_best_action "B" (example_agent (num:=Q)) = (Ok 1, example_agent).
Proof.
  destruct (proj1 greedy_picks_first_maximum example_agent "B")
    as (i & a & Hrun & Hi & Hmax & _).
  - discriminate.
  - destruct i as [|[|i]]; cbn in Hi; [| |discriminate].
    + exfalso. injection Hi as <-.
      specialize (Hmax 1 ltac:(cbn [actions example_agent]; set_solver)).
      by vm_compute in Hmax.
    + injection Hi as <-. exact Hrun.
Defined.

(** ** The frame of [learn] *)

(** C4, as amended.  A call of [learn] that returns writes exactly one
    entry, at the current [(state, action)]: the table afterwards is the
    table before with that one key set, every other key reads as before,
    and a key of the next state that was absent stays absent unless it is
    the written key itself (which it is when the next state is the current
    state and the action is the one taken). *)
Theorem learn_writes_one_entry {num} `{Number num} (ag : Agent num)
    (a : Z) (o : obs) (r : num) (t : bool) (o' : obs) :
  actions ag ≠ [] →
  ∃ err new : num,
    learn a o r t o' ag =
      (Ok err, with_q_table ag (<[(_get_state o, a) := new]> (q_table ag)))
    ∧ q_table (after (learn a o r t o') ag) !! (_get_state o, a) = Some new
    ∧ (∀ k, k ≠ (_get_state o, a) →
         q_table (after (learn a o r t o') ag) !! k = q_table ag !! k)
    ∧ (∀ a', (_get_state o', a') ≠ (_get_state o, a) →
         q_table ag !! (_get_state o', a') = None →
         q_table (after (learn a o r t o') ag) !! (_get_state o', a') = None).
Proof.
  intros Hne.
  destruct (py_max_nonempty (values_at ag (_get_state o'))) as [m Hm];
    [by apply values_at_nonempty|].
  pose proof (learn_run ag a o r t o' m Hm) as Hrun. cbv zeta in Hrun.
  eexists _, _. split; [exact Hrun|].
  unfold after. rewrite Hrun. simpl.
  split; [apply lookup_insert_eq|].
  split.
  - intros k Hk. by rewrite lookup_insert_ne.
  - intros a' Hk Habs. by rewrite lookup_insert_ne.
Qed.

Lemma learn_writes_one_entry_witness :
  ∃ err new : Q,
    learn 0 (OTuple [SInt 20; SInt 10; SBool false]) 1%Q true
      (OTuple [SInt 20; SInt 10; SBool false]) fresh =
      (Ok err,
       with_q_table fresh (<[("(20, 10, False)", 0) := new]> ∅)).
Proof.
  destruct (learn_writes_one_entry (num:=Q) fresh 0
              (OTuple [SInt 20; SInt 10; SBool false]) 1%Q true
              (OTuple [SInt 20; SInt 10; SBool false]))
    as (err & new & Hrun & _).
  - discriminate.
  - exists err, new. exact Hrun.
Defined.

(** C4 as stated fails when the next observation is the current one, as
    after standing in Blackjack: the key written is then a key of the next
    state, and it is new. *)
Lemma learn_adds_key_of_next_state :
  let o := OTuple [SInt 20; SInt 10; SBool false] in
  let ag' := after (learn 0 o 1%Q true o) fresh in
  ¬ (∀ a', q_table (fresh (num:=Q)) !! (_get_state o, a') = None →
           q_table ag' !! (_get_state o, a') = None).
Proof.
  intros o ag' Hframe. specialize (Hframe 0 eq_refl).
  vm_compute in Hframe. discriminate.
Qed.




(** ** Construction *)

(** C5, as amended.  Construction takes no configuration option: called
    with none it yields the agent with an empty table, learning rate 0.1,
    discount factor 0.9, exploration rate 0.1 and the actions [0] and [1],
    each rate inside its valid range; called with any option it raises
    [TypeError], whatever the value; and no sequence of [action] and
    [learn] calls changes the four settings of an agent. *)
Theorem init_takes_no_options :
  (∀ (num : Type) (N : Number num),
     __init__ [] = Ok (fresh (num:=num))
     ∧ q_table (fresh (num:=num)) = ∅
     ∧ actions (fresh (num:=num)) = [0; 1])
  ∧ (∀ (num : Type) (N : Number num) (kw : string * arg num)
       (kwargs : list (string * arg num)),
       __init__ (kw :: kwargs) = Raise TypeError)
  ∧ (learning_rate (fresh (num:=Q)) == 1 # 10)%Q
  ∧ (discount_factor (fresh (num:=Q)) == 9 # 10)%Q
  ∧ (exploration_rate (fresh (num:=Q)) == 1 # 10)%Q
  ∧ valid_learning_rate (learning_rate (fresh (num:=Q)))
  ∧ valid_unit_interval (discount_factor (fresh (num:=Q)))
  ∧ valid_unit_interval (exploration_rate (fresh (num:=Q)))
  ∧ (∀ (num : Type) (N : Number num) (ag : Agent num) (cs : list (call num)),
       same_settings ag (run_calls ag cs)).
Proof.
  repeat split; try reflexivity; try (by vm_compute).
  all: try (intros; apply run_calls_same_settings).
Qed.

(** C5 as stated fails: a learning rate of one half is in range, and the
    constructor refuses it as it refuses every option; and an agent whose
    learning rate has been set to 2, out of range, learns without any
    error. *)
Lemma init_rejects_every_option :
  valid_learning_rate (1 # 2)
  ∧ __init__ (num:=Q) [("learning_rate", ANum (1 # 2))] = Raise TypeError
  ∧ ¬ valid_learning_rate 2
  ∧ ∃ err : Q,
      fst (learn 0 (OStr "s") 1%Q false (OStr "t")
             (mkAgent (num:=Q) ∅ 2%Q (9 # 10)%Q (1 # 10)%Q [0; 1])) = Ok err.
Proof.
  split; [by vm_compute|]. split; [reflexivity|]. split.
  - intros [_ Hle]. by vm_compute in Hle.
  - by eexists.
Qed.

(** ** The key set *)

(** C9.  The table is empty at construction; [action] leaves the agent
    as it found it; [learn] keeps every key; so along any sequence of
    [action] and [learn] calls the set of keys never shrinks. *)
Theorem table_keys_only_grow {num} `{Number num} :
  (__init__ [] = Ok (fresh (num:=num)) ∧ dom (q_table (fresh (num:=num))) = ∅)
  ∧ (∀ (ag : Agent num) rnd o e, after (action rnd o e) ag = ag)
  ∧ (∀ (ag : Agent num) a o r t o',
       dom (q_table ag) ⊆ dom (q_table (after (learn a o r t o') ag)))
  ∧ (∀ (ag : Agent num) (cs1 cs2 : list (call num)),
       dom (q_table (run_calls ag cs1))
       ⊆ dom (q_table (run_calls ag (cs1 ++ cs2)))).
Proof.
  split; [|split; [|split]].
  - split; [reflexivity|]. simpl. apply dom_empty_L.
  - apply action_pure.
  - intros ag a o r t o'. apply (run_call_dom ag (CallLearn a o r t o')).
  - intros ag cs1 cs2. unfold run_calls at 2. rewrite foldl_app.
    apply run_calls_dom.
Qed.

(** ** The state encoding *)




Lemma py_eq_items_refl (xs : list scalar) : py_eq_items xs xs = true.
Proof.
  induction xs as [|x xs IH]; simpl; [done|].
  rewrite IH. unfold py_eq_scalar. by rewrite bool_decide_eq_true_2.
Qed.

Lemma py_eq_refl (o : obs) : py_eq o o = true.
Proof.
  destruct o; simpl.
  - unfold py_eq_scalar. by rewrite bool_decide_eq_true_2.
  - by rewrite bool_decide_eq_true_2.
  - apply py_eq_items_refl.
Qed.


(** C10.  The encoding is not injective: the integer [1] and the string
    ["1"] are different observations, not [==] either, with the same key.
    Their entries are therefore the same entries: a fresh agent answers
    action [0] for the string, and action [1] once it has learned, through
    the integer, that action [1] pays. *)
Theorem encoding_not_injective :
  OScalar (SInt 1) ≠ OStr "1"
  ∧ py_eq (OScalar (SInt 1)) (OStr "1") = false
  ∧ _get_state (OScalar (SInt 1)) = _get_state (OStr "1")
  ∧ (∀ rnd : Draw Q,
       fst (action rnd (OStr "1") true fresh) = Ok 0
       ∧ fst (action rnd (OStr "1") true
                (after (learn 1 (OScalar (SInt 1)) 1%Q true
                          (OScalar (SInt 1))) fresh)) = Ok 1)
  ∧ (∀ rnd : Draw float,
       fst (action rnd (OStr "1") true fresh) = Ok 0
       ∧ fst (action rnd (OStr "1") true
                (after (learn 1 (OScalar (SInt 1)) 1%float true
                          (OScalar (SInt 1))) fresh)) = Ok 1).
Proof.
  split; [discriminate|]. split; [reflexivity|]. split; [reflexivity|].
  split; intros rnd; split; by vm_compute.
Qed.

(** ** Convergence under a constant reward *)

Lemma repeat_learn_same_settings {num} `{Number num} (n : nat)
    (ag : Agent num) a o r t o' :
  same_settings ag (repeat_learn n a o r t o' ag).
Proof.
  induction n as [|n IH]; simpl; [by repeat split|].
  destruct IH as (H1 & H2 & H3 & H4).
  destruct (learn_same_settings (repeat_learn n a o r t o' ag) a o r t o')
    as (K1 & K2 & K3 & K4).
  repeat split; congruence.
Qed.


Lemma Qpower_succ (p : Q) (n : nat) :
  (p ^ Z.of_nat (S n) == p * p ^ Z.of_nat n)%Q.
Proof.
  rewrite Nat2Z.inj_succ, <- Z.add_1_l.
  rewrite Qpower_plus' by lia. by rewrite Qpower_1_r.
Qed.






(** * Further properties of the methods *)

(** ** Failures *)

(** X1.  [learn] raises exactly when [self.actions] is empty: the builtin
    [max] then raises [ValueError] before anything is stored, and the agent
    is left as it was; with an action to choose from, [learn] returns. *)
Theorem learn_raises_only_without_actions {num} `{Number num}
    (ag : Agent num) (a : Z) (o : obs) (r : num) (t : bool) (o' : obs) :
  (actions ag = [] → learn a o r t o' ag = (Raise ValueError, ag))
  ∧ (actions ag ≠ [] → ∃ err, fst (learn a o r t o' ag) = Ok err)
  ∧ (∀ e, fst (learn a o r t o' ag) = Raise e →
       actions ag = [] ∧ e = ValueError ∧ after (learn a o r t o') ag = ag).
Proof.
  assert (actions ag = [] → learn a o r t o' ag = (Raise ValueError, ag))
    as Hempty.
  { intros Hnil. apply learn_raise. unfold values_at. by rewrite Hnil. }
  assert (actions ag ≠ [] → ∃ err, fst (learn a o r t o' ag) = Ok err)
    as Hsome.
  { intros Hne.
    destruct (py_max_nonempty (values_at ag (_get_state o'))) as [m Hm];
      [by apply values_at_nonempty|].
    eexists. by rewrite (learn_run ag a o r t o' m Hm). }
  split; [exact Hempty|]. split; [exact Hsome|].
  intros e He. destruct (actions ag) as [|a0 rest] eqn:Hacts.
  - unfold after. rewrite Hempty in He |- * by done.
    simpl in He. by injection He as <-.
  - destruct Hsome as [err Herr]; [done|]. congruence.
Qed.

(** ** The two branches of [action] *)

(** X2.  When [action] explores, its answer is the item of
    [self.actions] at the drawn position, whatever the observation and
    whatever the table holds. *)
Theorem action_explores_uniformly {num} `{Number num} (ag : Agent num)
    (rnd : Draw num) (o : obs) :
  actions ag ≠ [] →
  explores ag rnd false = true →
  ∃ a : Z,
    actions ag !! (randbits rnd mod length (actions ag))%nat = Some a
    ∧ action rnd o false ag = (Ok a, ag)
    ∧ ∀ (o2 : obs) (q : gmap (string * Z) num),
        fst (action rnd o2 false (with_q_table ag q)) = Ok a.
Proof.
  intros Hne Hexp. unfold explores in Hexp.
  assert (randbits rnd mod length (actions ag) < length (actions ag))%nat
    as Hlt.
  { apply Nat.mod_upper_bound. by destruct (actions ag). }
  destruct (lookup_lt_is_Some_2 _ _ Hlt) as [a Ha].
  assert (∀ (o2 : obs) (ag2 : Agent num),
            actions ag2 = actions ag →
            exploration_rate ag2 = exploration_rate ag →
            action rnd o2 false ag2 = (Ok a, ag2)) as Hrun.
  { intros o2 ag2 Hacts Heps.
    unfold action, mbind, Method_bind, bind, attr, lift. cbv beta iota.
    rewrite Heps, Hexp, Hacts. unfold py_choice, py_getitem.
    destruct (actions ag) as [|a0 rest] eqn:Hl; [done|]. by rewrite Ha. }
  exists a. split; [exact Ha|]. split; [by apply Hrun|].
  intros o2 q. by rewrite Hrun.
Qed.

Lemma action_explores_uniformly_witness :
  ∃ a : Z,
    [0; 1] !! (3 mod 2)%nat = Some a
    ∧ action (mkDraw 0%Q 3%nat) (OStr "s") false fresh = (Ok a, fresh).
Proof.
  destruct (action_explores_uniformly (num:=Q) fresh (mkDraw 0%Q 3%nat)
              (OStr "s")) as (a & Ha & Hrun & _).
  - discriminate.
  - reflexivity.
  - exists a. split; [exact Ha | exact Hrun].
Defined.

(** X3.  In exact arithmetic [action] returns one of [self.actions]
    whenever there is one, on either branch, and leaves the agent
    untouched; with no action it raises, [IndexError] from [random.choice]
    when it explores and [ValueError] from [max] when it does not. *)
Theorem action_returns_a_listed_action (ag : Agent Q) (rnd : Draw Q)
    (o : obs) (e : bool) :
  (actions ag ≠ [] →
     ∃ a : Z, action rnd o e ag = (Ok a, ag) ∧ a ∈ actions ag)
  ∧ (actions ag = [] →
     action rnd o e ag =
       (Raise (if explores ag rnd e then IndexError else ValueError), ag)).
Proof.
  split.
  - intros Hne. destruct (explores ag rnd e) eqn:Hexp.
    + destruct e; [done|].
      destruct (action_explores_uniformly ag rnd o Hne Hexp)
        as (a & Ha & Hrun & _).
      exists a. split; [exact Hrun|]. by eapply list_elem_of_lookup_2.
    + destruct (get_best_action_Q ag (_get_state o) Hne)
        as (i & a & Hrun & Hi & _).
      exists a. split; [|by eapply list_elem_of_lookup_2].
      unfold explores in Hexp.
      unfold action, mbind, Method_bind, bind, attr, lift. cbv beta iota.
      by rewrite Hexp.
  - intros Hnil. unfold explores.
    unfold action, _get_best_action, mbind, Method_bind, bind, attr, lift.
    cbv beta iota zeta.
    destruct (negb e && num_lt (uniform rnd) (exploration_rate ag));
      by rewrite Hnil.
Qed.

(** X4.  In exact arithmetic, a number drawn at or above
    [self.exploration_rate] makes [action] answer as with [exploit_only];
    [random.uniform(0, 1)] never draws below zero, so an agent whose
    exploration rate is zero never explores. *)
Theorem action_greedy_when_draw_not_below_rate (ag : Agent Q)
    (rnd : Draw Q) (o : obs) :
  (exploration_rate ag <= uniform rnd)%Q →
  explores ag rnd false = false
  ∧ ∀ rnd' : Draw Q, action rnd o false ag = action rnd' o true ag.
Proof.
  intros Hle.
  assert (explores ag rnd false = false) as Hexp.
  { unfold explores, num_lt. simpl negb. rewrite andb_true_l.
    by apply Q_gt_false. }
  split; [exact Hexp|]. intros rnd'. unfold explores in Hexp.
  unfold action, mbind, Method_bind, bind, attr, lift. cbv beta iota.
  by rewrite Hexp.
Qed.

Lemma action_greedy_when_draw_not_below_rate_witness :
  action (mkDraw 0%Q 1%nat) (OStr "A") false example_agent
  = action (mkDraw 1%Q 0%nat) (OStr "A") true example_agent.
Proof.
  apply (action_greedy_when_draw_not_below_rate example_agent
           (mkDraw 0%Q 1%nat) (OStr "A")).
  discriminate.
Defined.

(** ** Sequences of calls *)

(** X5.  Calls of [action] can be struck from any sequence of calls
    without changing the agent it leads to: only the calls of [learn]
    matter, in their order. *)
Theorem action_calls_do_not_matter {num} `{Number num} (ag : Agent num)
    (cs : list (call num)) :
  run_calls ag cs = run_calls ag (filter is_learn cs).
Proof.
  unfold run_calls. revert ag.
  induction cs as [|c cs IH]; intros ag; [done|].
  destruct c as [rnd o e|a o r t o'].
  - rewrite filter_cons_False by (simpl; tauto).
    simpl. rewrite action_pure. apply IH.
  - rewrite filter_cons_True by done. simpl. apply IH.
Qed.

(** X6.  A returning call of [learn] adds one key when
    [(state, action)] had no entry and none when it had one; so after any
    sequence of calls the table has at most as many keys more than before
    as there were calls of [learn]. *)
Theorem table_grows_one_key_per_learn {num} `{Number num} :
  (∀ (ag : Agent num) a o r t o' err,
     fst (learn a o r t o' ag) = Ok err →
     size (q_table (after (learn a o r t o') ag)) =
       match q_table ag !! (_get_state o, a) with
       | Some _ => size (q_table ag)
       | None => S (size (q_table ag))
       end)
  ∧ (∀ (ag : Agent num) (cs : list (call num)),
       (size (q_table (run_calls ag cs))
        ≤ size (q_table ag) + length (filter is_learn cs))%nat).
Proof.
  assert (∀ (ag : Agent num) a o r t o',
            (size (q_table (after (learn a o r t o') ag))
             ≤ S (size (q_table ag)))%nat) as Hstep.
  { intros ag a o r t o'. unfold after.
    destruct (learn_cases ag a o r t o') as [(err & new & ->)|(e & ->)];
      cbn [snd q_table with_q_table]; [|lia].
    rewrite map_size_insert. destruct (q_table ag !! _); unfold id; lia. }
  split.
  - intros ag a o r t o' err Hok. unfold after.
    destruct (learn_cases ag a o r t o') as [(err' & new & Hrun)|(e & Hrun)];
      rewrite Hrun in Hok |- *; cbn [fst snd q_table with_q_table] in *;
      [|done].
    rewrite map_size_insert. by destruct (q_table ag !! _).
  - intros ag cs. unfold run_calls. revert ag.
    induction cs as [|c cs IH]; intros ag; simpl; [lia|].
    destruct c as [rnd o e|a o r t o'].
    + rewrite filter_cons_False by (simpl; tauto).
      simpl. rewrite action_pure. apply IH.
    + rewrite filter_cons_True by done. simpl.
      specialize (IH (after (learn a o r t o') ag)).
      specialize (Hstep ag a o r t o'). lia.
Qed.

(** ** The arithmetic of one update, in exact arithmetic *)

(** [learn] on an agent with an action, with the names of its body. *)
Lemma learn_run_Q (ag : Agent Q) a o r t o' :
  actions ag ≠ [] →
  ∃ next_max : Q,
    py_max (values_at ag (_get_state o')) = Ok next_max
    ∧ (∃ a', a' ∈ actions ag
             ∧ next_max = dict_get (q_table ag) (_get_state o', a') 0%Q)
    ∧ learn a o r t o' ag =
        (Ok (Qabs (stored ag o a
                   - td_update (learning_rate ag) (discount_factor ag)
                       (stored ag o a) r next_max)),
         with_q_table ag
           (<[(_get_state o, a) :=
                td_update (learning_rate ag) (discount_factor ag)
                  (stored ag o a) r next_max]> (q_table ag))).
Proof.
  intros Hne.
  destruct (py_max_nonempty (values_at ag (_get_state o'))) as [m Hm];
    [by apply values_at_nonempty|].
  exists m. split; [exact Hm|]. split.
  - destruct (py_max_Q _ _ Hm) as [Hin _].
    unfold values_at in Hin. apply list_elem_of_fmap in Hin as (a' & -> & Ha').
    by exists a'.
  - exact (learn_run ag a o r t o' m Hm).
Qed.

Lemma td_update_gap (alpha gamma old r m : Q) :
  (td_update alpha gamma old r m - old
   == alpha * (td_target gamma r m - old))%Q.
Proof. unfold td_update, td_target. simpl. ring. Qed.

(** X7.  Read off the table before and after a call of [learn]: the
    value found under [(state, action)] afterwards differs from the one
    found before ([0] if there was none) by the learning rate times the gap
    to the target [reward + gamma * next_max], where [next_max] is the
    largest value found under the next state for an action of the list;
    the error returned is the absolute learning rate times the absolute
    gap; it is never negative, and it is zero exactly when the learning
    rate is zero or the old value already is the target. *)
Theorem learn_error_is_scaled_gap (ag : Agent Q) (a : Z) (o : obs) (r : Q)
    (t : bool) (o' : obs) :
  actions ag ≠ [] →
  ∃ err new next_max : Q,
    (∃ a', a' ∈ actions ag
           ∧ next_max = default 0%Q (q_table ag !! (_get_state o', a')))
    ∧ (∀ a', a' ∈ actions ag →
         (default 0%Q (q_table ag !! (_get_state o', a')) <= next_max)%Q)
    ∧ fst (learn a o r t o' ag) = Ok err
    ∧ q_table (after (learn a o r t o') ag) !! (_get_state o, a) = Some new
    ∧ let old := default 0%Q (q_table ag !! (_get_state o, a)) in
      let target := (r + discount_factor ag * next_max)%Q in
      (new - old == learning_rate ag * (target - old))%Q
      ∧ (err == Qabs (learning_rate ag) * Qabs (target - old))%Q
      ∧ (0 <= err)%Q
      ∧ ((err == 0)%Q ↔ (learning_rate ag == 0)%Q ∨ (old == target)%Q).
Proof.
  intros Hne.
  destruct (learn_lookup_Q ag a o r t o' Hne)
    as (m & Hin & Hle & Hret & Hnew).
  cbv zeta in Hret, Hnew.
  eexists _, _, m. split; [exact Hin|]. split; [exact Hle|].
  split; [exact Hret|]. split; [exact Hnew|]. cbv zeta.
  set (old := default 0%Q (q_table ag !! (_get_state o, a))).
  set (target := (r + discount_factor ag * m)%Q).
  set (new := ((1 - learning_rate ag) * old + learning_rate ag * target)%Q).
  assert (new - old == learning_rate ag * (target - old))%Q as Hgap
    by (unfold new, target; ring).
  set (gap := (target - old)%Q) in *.
  assert (Qabs (old - new) == Qabs (learning_rate ag) * Qabs gap)%Q as Herr.
  { rewrite <- Qabs_Qmult, <- Hgap, <- (Qabs_opp (new - old)).
    apply Qabs_wd. ring. }
  split; [exact Hgap|]. split; [exact Herr|]. split; [apply Qabs_nonneg|].
  rewrite Herr. split.
  - intros Hzero. apply Qmult_integral in Hzero as [Hz|Hz].
    + left. destruct (Qabs_Qle_condition (learning_rate ag) 0) as [Hc _].
      destruct Hc as [Hlo Hhi]; [rewrite Hz; apply Qle_refl|]. lra.
    + right. destruct (Qabs_Qle_condition gap 0) as [Hc _].
      destruct Hc as [Hlo Hhi]; [rewrite Hz; apply Qle_refl|].
      unfold gap in *. lra.
  - intros [Hz|Hz].
    + rewrite Hz. change (Qabs 0) with 0%Q. ring.
    + assert (gap == 0)%Q as -> by (unfold gap; lra).
      change (Qabs 0) with 0%Q. ring.
Qed.

Lemma learn_error_is_scaled_gap_witness :
  ∃ err new : Q,
    fst (learn 1 (OStr "A") 0%Q false (OStr "B") example_agent) = Ok err
    ∧ q_table (after (learn 1 (OStr "A") 0%Q false (OStr "B"))
                 example_agent) !! ("A", 1) = Some new
    ∧ (new == 9 # 2)%Q ∧ (err == 9 # 2)%Q.
Proof.
  destruct (learn_error_is_scaled_gap example_agent 1 (OStr "A") 0%Q false
              (OStr "B"))
    as (err & new & m & Hin & Hle & Hret & Hnew & Hgap & Herr & _).
  - discriminate.
  - rewrite (example_next_max m Hin Hle) in Hgap, Herr.
    exists err, new. split; [exact Hret|]. split; [exact Hnew|].
    change (default 0%Q (q_table example_agent !! (_get_state (OStr "A"), 1)))
      with 0%Q in Hgap, Herr.
    change (learning_rate example_agent) with (1 # 2)%Q in Hgap, Herr.
    change (discount_factor example_agent) with (9 # 10)%Q in Hgap, Herr.
    change (Qabs (1 # 2)) with (1 # 2)%Q in Herr.
    change (Qabs (0 + (9 # 10) * 10 - 0)) with (90 # 10)%Q in Herr.
    split; lra.
Defined.

(** X8.  With a learning rate between 0 and 1 the value found in the
    table under [(state, action)] after a call of [learn] lies between the
    value found there before ([0] if there was none) and the target
    [reward + gamma * next_max], whichever is the larger, [next_max] being
    the largest value found under the next state for an action of the list;
    a value that already is the target is stored again unchanged. *)
Theorem learn_moves_towards_target (ag : Agent Q) (a : Z) (o : obs) (r : Q)
    (t : bool) (o' : obs) :
  actions ag ≠ [] →
  (0 <= learning_rate ag)%Q →
  (learning_rate ag <= 1)%Q →
  ∃ new next_max : Q,
    (∃ a', a' ∈ actions ag
           ∧ next_max = default 0%Q (q_table ag !! (_get_state o', a')))
    ∧ (∀ a', a' ∈ actions ag →
         (default 0%Q (q_table ag !! (_get_state o', a')) <= next_max)%Q)
    ∧ q_table (after (learn a o r t o') ag) !! (_get_state o, a) = Some new
    ∧ let old := default 0%Q (q_table ag !! (_get_state o, a)) in
      let target := (r + discount_factor ag * next_max)%Q in
      ((old <= target)%Q → (old <= new)%Q ∧ (new <= target)%Q)
      ∧ ((target <= old)%Q → (target <= new)%Q ∧ (new <= old)%Q)
      ∧ ((old == target)%Q → (new == old)%Q).
Proof.
  intros Hne H0 H1.
  destruct (learn_lookup_Q ag a o r t o' Hne)
    as (m & Hin & Hle & _ & Hnew).
  cbv zeta in Hnew.
  eexists _, m. split; [exact Hin|]. split; [exact Hle|].
  split; [exact Hnew|].
  set (old := default 0%Q (q_table ag !! (_get_state o, a))).
  set (alpha := learning_rate ag) in *.
  set (target := (r + discount_factor ag * m)%Q).
  assert ((1 - alpha) * old + alpha * target
          == old + alpha * (target - old))%Q as Hform by ring.
  cbv zeta. rewrite Hform.
  split; [|split].
  - intros Hlt. split; nra.
  - intros Hlt. split; nra.
  - intros Heq. nra.
Qed.

Lemma learn_moves_towards_target_witness :
  ∃ new : Q,
    q_table (after (learn 1 (OStr "A") 0%Q false (OStr "B")) example_agent)
      !! ("A", 1) = Some new
    ∧ (0 <= new)%Q ∧ (new <= 9)%Q.
Proof.
  destruct (learn_moves_towards_target example_agent 1 (OStr "A") 0%Q false
              (OStr "B")) as (new & m & Hin & Hle & Hnew & Hup & _).
  - discriminate.
  - discriminate.
  - discriminate.
  - rewrite (example_next_max m Hin Hle) in Hup.
    exists new. split; [exact Hnew|].
    change (default 0%Q (q_table example_agent !! (_get_state (OStr "A"), 1)))
      with 0%Q in Hup.
    change (discount_factor example_agent) with (9 # 10)%Q in Hup.
    destruct Hup as [Hlo Hhi]; [discriminate|]. split; lra.
Defined.

(** ** A bound on the stored values *)

Lemma dict_get_bounded (M : Q) (q : gmap (string * Z) Q) (k : string * Z) :
  (0 <= M)%Q → bounded_table M q → (Qabs (dict_get q k 0%Q) <= M)%Q.
Proof.
  intros HM Hq. unfold dict_get.
  destruct (q !! k) as [v|] eqn:Hk; [by eapply Hq|exact HM].
Qed.

Lemma td_update_bounded (alpha gamma old r m M R : Q) :
  (0 <= alpha)%Q → (alpha <= 1)%Q → (0 <= gamma)%Q →
  (Qabs r <= R)%Q → (Qabs old <= M)%Q → (Qabs m <= M)%Q →
  (R + gamma * M <= M)%Q →
  (Qabs (td_update alpha gamma old r m) <= M)%Q.
Proof.
  intros Ha0 Ha1 Hg Hr Hold Hm HM.
  apply Qabs_Qle_condition in Hr as [Hr1 Hr2].
  apply Qabs_Qle_condition in Hold as [Ho1 Ho2].
  apply Qabs_Qle_condition in Hm as [Hm1 Hm2].
  change (td_update alpha gamma old r m)
    with ((1 - alpha) * old + alpha * (r + gamma * m))%Q.
  assert (gamma * m <= gamma * M)%Q as Hgm1 by nra.
  assert (- (gamma * M) <= gamma * m)%Q as Hgm2 by nra.
  set (target := (r + gamma * m)%Q).
  assert (target <= M)%Q as Ht1 by (unfold target; lra).
  assert (- M <= target)%Q as Ht2 by (unfold target; lra).
  apply (proj2 (Qabs_Qle_condition _ _)). split; nra.
Qed.

Lemma learn_keeps_bound (ag : Agent Q) a o r t o' (M R : Q) :
  (0 <= learning_rate ag)%Q → (learning_rate ag <= 1)%Q →
  (0 <= discount_factor ag)%Q →
  (0 <= M)%Q → (R + discount_factor ag * M <= M)%Q →
  (Qabs r <= R)%Q →
  bounded_table M (q_table ag) →
  bounded_table M (q_table (after (learn a o r t o') ag)).
Proof.
  intros Ha0 Ha1 Hg HM HR Hr Hq.
  destruct (actions ag) as [|a0 rest] eqn:Hacts.
  - unfold after. rewrite learn_raise with (e := ValueError); [done|].
    unfold values_at. by rewrite Hacts.
  - destruct (learn_run_Q ag a o r t o') as (m & _ & (a' & _ & Hm) & Hrun);
      [by rewrite Hacts|].
    unfold after. rewrite Hrun. cbn [snd q_table with_q_table].
    intros k v. destruct (decide (k = (_get_state o, a))) as [->|Hk].
    + rewrite lookup_insert_eq. intros [= <-].
      apply td_update_bounded with R; try done.
      * by apply dict_get_bounded.
      * rewrite Hm. by apply dict_get_bounded.
    + rewrite lookup_insert_ne by done. apply Hq.
Qed.

(** X9.  Stored values stay bounded: with a learning rate between 0 and
    1 and a discount factor of at least 0, if every stored value is within
    [M] of zero, where [R + gamma * M <= M], then after any sequence of
    calls whose rewards are within [R] of zero every stored value still
    is. *)
Theorem stored_values_stay_bounded (ag : Agent Q) (cs : list (call Q))
    (M R : Q) :
  (0 <= learning_rate ag)%Q →
  (learning_rate ag <= 1)%Q →
  (0 <= discount_factor ag)%Q →
  (0 <= M)%Q →
  (R + discount_factor ag * M <= M)%Q →
  Forall (reward_within R) cs →
  bounded_table M (q_table ag) →
  bounded_table M (q_table (run_calls ag cs)).
Proof.
  intros Ha0 Ha1 Hg HM HR Hcs. unfold run_calls.
  revert ag Ha0 Ha1 Hg HR.
  induction Hcs as [|c cs Hc _ IH]; intros ag Ha0 Ha1 Hg HR Hq; [done|].
  cbn [foldl].
  destruct (run_call_same_settings ag c) as (Halpha & Hgamma & _ & _).
  apply IH; rewrite ?Halpha, ?Hgamma; try done.
  destruct c as [rnd o e|a o r t o']; cbn [run_call].
  - by rewrite action_pure.
  - by apply learn_keeps_bound with R.
Qed.

Lemma stored_values_stay_bounded_witness :
  bounded_table 10
    (q_table
       (run_calls fresh
          [CallLearn 1 (OTuple [SInt 14; SInt 10; SBool false]) (-1)%Q true
             (OTuple [SInt 24; SInt 10; SBool false]);
           CallAction (mkDraw 0%Q 0%nat) (OStr "s") false;
           CallLearn 0 (OTuple [SInt 20; SInt 10; SBool false]) 1%Q true
             (OTuple [SInt 20; SInt 10; SBool false])])).
Proof.
  apply (stored_values_stay_bounded fresh _ 10 1); try discriminate.
  repeat constructor; discriminate.
Defined.

(** ** Repeated updates without discount *)

Lemma learn_step_reward_Q (ag : Agent Q) a o r t o' :
  actions ag ≠ [] →
  (discount_factor ag == 0)%Q →
  (stored (after (learn a o r t o') ag) o a - r
   == (1 - learning_rate ag) * (stored ag o a - r))%Q.
Proof.
  intros Hne Hgamma.
  destruct (learn_run_Q ag a o r t o' Hne) as (m & _ & _ & Hrun).
  unfold after. rewrite Hrun. unfold stored at 1.
  cbn [snd q_table with_q_table]. unfold dict_get at 1.
  rewrite lookup_insert_eq. unfold td_update. simpl. rewrite Hgamma. ring.
Qed.

(** X10.  With discount factor 0, [n] calls of [learn] on the same
    [(state, action)] with the same reward [r] shrink the distance of the
    stored value to [r] by the factor [(1 - alpha)^n], from whatever value
    was stored and with any learning rate; a learning rate of 1 stores [r]
    itself at the first call. *)
Theorem repeated_learn_closed_form (ag : Agent Q) (a : Z) (o : obs) (r : Q)
    (t : bool) (o' : obs) (n : nat) :
  actions ag ≠ [] →
  (discount_factor ag == 0)%Q →
  (stored (repeat_learn n a o r t o' ag) o a - r
   == (1 - learning_rate ag) ^ Z.of_nat n * (stored ag o a - r))%Q
  ∧ ((learning_rate ag == 1)%Q → (0 < n)%nat →
     (stored (repeat_learn n a o r t o' ag) o a == r)%Q).
Proof.
  intros Hne Hgamma.
  assert (∀ k, stored (repeat_learn k a o r t o' ag) o a - r
               == (1 - learning_rate ag) ^ Z.of_nat k * (stored ag o a - r))%Q
    as Hform.
  { induction k as [|k IH].
    - change ((1 - learning_rate ag) ^ Z.of_nat 0)%Q with 1%Q.
      cbn [repeat_learn]. ring.
    - destruct (repeat_learn_same_settings k ag a o r t o')
        as (Halpha & Hdf & _ & Hacts).
      cbn [repeat_learn].
      rewrite learn_step_reward_Q by (by rewrite ?Hacts, ?Hdf).
      rewrite IH, Halpha, Qpower_succ. ring. }
  split; [apply Hform|].
  intros Hone Hn. destruct n as [|k]; [lia|].
  pose proof (Hform (S k)) as Hk. rewrite Qpower_succ, Hone in Hk.
  lra.
Qed.

Lemma repeated_learn_closed_form_witness :
  (stored (repeat_learn 2 1 (OStr "s") (-1)%Q true (OStr "t") toy_agent)
     (OStr "s") 1 - (-1)
   == (1 - (1 # 2)) ^ 2 * (0 - (-1)))%Q.
Proof.
  refine (proj1 (repeated_learn_closed_form toy_agent 1 (OStr "s") (-1)%Q
                   true (OStr "t") 2 _ _)).
  - discriminate.
  - reflexivity.
Defined.

(** ** Which observations share a key *)

Lemma append_nil (s : string) : "" +:+ s = s.
Proof. reflexivity. Qed.

Lemma append_cons (c : ascii) (s1 s2 : string) :
  String c s1 +:+ s2 = String c (s1 +:+ s2).
Proof. reflexivity. Qed.

Lemma append_assoc (s1 s2 s3 : string) :
  (s1 +:+ s2) +:+ s3 = s1 +:+ (s2 +:+ s3).
Proof.
  induction s1 as [|c s1 IH]; [done|].
  by rewrite !append_cons, IH.
Qed.

Lemma numeral_char_plain (c : ascii) :
  numeral_char c = true → negb (delimiter c) = true.
Proof.
  unfold numeral_char, delimiter. intros Hc%bool_decide_eq_true.
  rewrite !elem_of_cons, elem_of_nil in Hc.
  destruct Hc as [->|[->|[->|[->|[->|[->|[->|[->|[->|[->|[->|[]]]]]]]]]]]];
    reflexivity.
Qed.

Lemma numeral_plain (s : string) : numeral s = true → plain s = true.
Proof.
  unfold numeral, plain. induction s as [|c s IH]; simpl; [done|].
  intros [Hc Hs]%andb_true_iff.
  by rewrite (numeral_char_plain c Hc), IH.
Qed.

Lemma numeral_pretty_N_go (x : N) (s : string) :
  numeral s = true → numeral (pretty_N_go x s) = true.
Proof.
  revert s. induction (N.lt_wf_0 x) as [x _ IH]; intros s Hs.
  destruct (decide (x = 0)%N) as [->|Hx]; [by rewrite pretty_N_go_0|].
  rewrite pretty_N_go_step by lia.
  apply IH; [apply N.div_lt; lia|].
  unfold numeral in *. simpl. rewrite Hs, andb_true_r.
  unfold pretty_N_char. by repeat case_match.
Qed.

Lemma numeral_pretty_Z (z : Z) : numeral (pretty z) = true.
Proof.
  destruct z as [|p|p]; [done|..]; unfold pretty, pretty_Z;
    [|change ("-" +:+ pretty p) with (String "-" (pretty p));
      unfold numeral; cbn [all_chars];
      change (numeral_char "-") with true; rewrite andb_true_l;
      change (all_chars numeral_char (pretty p)) with (numeral (pretty p))];
    unfold pretty, pretty_positive, pretty, pretty_N;
    (destruct (decide (N.pos p = 0)%N); [done|]);
    by apply numeral_pretty_N_go.
Qed.

Lemma plain_str_scalar (x : scalar) : plain (str_scalar x) = true.
Proof.
  destruct x as [z|[]]; [|done..].
  apply numeral_plain, numeral_pretty_Z.
Qed.

Lemma str_scalar_inj (x y : scalar) : str_scalar x = str_scalar y → x = y.
Proof.
  destruct x as [z1|b1], y as [z2|b2]; simpl.
  - by intros ->%(inj pretty).
  - intros Heq. pose proof (numeral_pretty_Z z1) as Hnum.
    rewrite Heq in Hnum. by destruct b2.
  - intros Heq. pose proof (numeral_pretty_Z z2) as Hnum.
    rewrite <- Heq in Hnum. by destruct b1.
  - by destruct b1, b2.
Qed.

(** Two strings cut at their first delimiter agree piece by piece. *)
Lemma split_at_delimiter (s1 s2 : string) (c1 c2 : ascii) (r1 r2 : string) :
  plain s1 = true → plain s2 = true →
  delimiter c1 = true → delimiter c2 = true →
  s1 +:+ String c1 r1 = s2 +:+ String c2 r2 →
  s1 = s2 ∧ c1 = c2 ∧ r1 = r2.
Proof.
  unfold plain. revert s2.
  induction s1 as [|d1 s1 IH]; intros [|d2 s2];
    rewrite ?append_nil, ?append_cons; simpl;
    intros Hp1 Hp2 Hc1 Hc2 Heq.
  - by injection Heq as -> ->.
  - injection Heq as -> _. apply andb_true_iff in Hp2 as [Hd _].
    by rewrite Hc1 in Hd.
  - injection Heq as -> _. apply andb_true_iff in Hp1 as [Hd _].
    by rewrite Hc2 in Hd.
  - injection Heq as -> Heq.
    apply andb_true_iff in Hp1 as [_ Hp1].
    apply andb_true_iff in Hp2 as [_ Hp2].
    destruct (IH s2 Hp1 Hp2 Hc1 Hc2 Heq) as (-> & -> & ->). done.
Qed.

Lemma join_close_cons (x y : scalar) (l : list scalar) :
  join_comma (str_scalar <$> x :: y :: l) +:+ ")"
  = str_scalar x
    +:+ String "," (String " " (join_comma (str_scalar <$> y :: l) +:+ ")")).
Proof.
  cbn [fmap list_fmap join_comma].
  by rewrite append_assoc, append_assoc, !append_cons, append_nil.
Qed.

(** The items of a tuple can be read back from its [str]: first from
    the text that follows the opening parenthesis of a tuple of two items
    or more. *)
Lemma join_close_inj (xs ys : list scalar) :
  xs ≠ [] → ys ≠ [] →
  join_comma (str_scalar <$> xs) +:+ ")"
  = join_comma (str_scalar <$> ys) +:+ ")" →
  xs = ys.
Proof.
  revert ys. induction xs as [|x xs IH]; intros ys Hxs Hys; [done|].
  destruct ys as [|y ys]; [done|].
  destruct xs as [|x2 xs], ys as [|y2 ys];
    rewrite ?join_close_cons; intros Heq;
    try change (join_comma (str_scalar <$> [x]))
          with (str_scalar x) in Heq;
    try change (join_comma (str_scalar <$> [y]))
          with (str_scalar y) in Heq.
  - apply split_at_delimiter in Heq as (Hs & _ & _);
      try done; try apply plain_str_scalar.
    by rewrite (str_scalar_inj _ _ Hs).
  - apply split_at_delimiter in Heq as (_ & Hc & _);
      try done; try apply plain_str_scalar.
  - apply split_at_delimiter in Heq as (_ & Hc & _);
      try done; try apply plain_str_scalar.
  - apply split_at_delimiter in Heq as (Hs & _ & Hr);
      try done; try apply plain_str_scalar.
    injection Hr as Hr.
    assert (x2 :: xs = y2 :: ys) as Hrec by (apply IH; [done..|exact Hr]).
    by rewrite (str_scalar_inj _ _ Hs), Hrec.
Qed.

Lemma str_tuple_inj (xs ys : list scalar) :
  str (OTuple xs) = str (OTuple ys) → xs = ys.
Proof.
  assert (∀ (x : scalar) (zs : list scalar),
            str (OTuple (x :: zs)) =
            String "(" (str_scalar x +:+
              match zs with
              | [] => String "," ")"
              | z :: zs' =>
                  String "," (String " "
                    (join_comma (str_scalar <$> z :: zs') +:+ ")"))
              end)) as Hshape.
  { intros x [|z zs'].
    - unfold str. by rewrite append_cons, append_nil.
    - unfold str. by rewrite append_cons, append_nil, join_close_cons. }
  destruct xs as [|x xs], ys as [|y ys]; rewrite ?Hshape.
  - done.
  - change (str (OTuple [])) with (String "(" ("" +:+ String ")" "")).
    intros [= Heq].
    destruct ys; apply split_at_delimiter in Heq as (_ & Hc & _);
      try done; try apply plain_str_scalar.
  - change (str (OTuple [])) with (String "(" ("" +:+ String ")" "")).
    intros [= Heq].
    destruct xs; apply split_at_delimiter in Heq as (_ & Hc & _);
      try done; try apply plain_str_scalar.
  - intros [= Heq].
    destruct xs as [|x2 xs], ys as [|y2 ys];
      apply split_at_delimiter in Heq as (Hs & _ & Hr);
      try done; try apply plain_str_scalar;
      apply str_scalar_inj in Hs as ->; [done|].
    injection Hr as Hr.
    assert (x2 :: xs = y2 :: ys) as Hrec
      by (apply join_close_inj; [done..|exact Hr]).
    by rewrite Hrec.
Qed.

(** X11.  Observations that are not strings never share a state key:
    distinct integers, booleans and tuples of them are encoded to distinct
    keys, so whenever two different observations hit the same table
    entries, one of them is a string. *)
Theorem encoding_injective_off_strings (o1 o2 : obs) :
  _get_state o1 = _get_state o2 →
  o1 ≠ o2 →
  is_str o1 = true ∨ is_str o2 = true.
Proof.
  intros Heq Hne.
  destruct o1 as [x| |xs], o2 as [y| |ys]; simpl; auto; exfalso.
  - apply Hne. f_equal. by apply str_scalar_inj.
  - unfold _get_state in Heq. pose proof (plain_str_scalar x) as Hp.
    change (str (OScalar x)) with (str_scalar x) in Heq. rewrite Heq in Hp.
    destruct ys as [|y1 [|y2 ys]]; unfold str in Hp;
      rewrite ?append_cons in Hp; done.
  - unfold _get_state in Heq. pose proof (plain_str_scalar y) as Hp.
    change (str (OScalar y)) with (str_scalar y) in Heq. rewrite <- Heq in Hp.
    destruct xs as [|x1 [|x2 xs]]; unfold str in Hp;
      rewrite ?append_cons in Hp; done.
  - apply Hne. f_equal. by apply str_tuple_inj.
Qed.

Lemma encoding_injective_off_strings_witness :
  is_str (OScalar (SInt 1)) = true ∨ is_str (OStr "1") = true.
Proof.
  apply (encoding_injective_off_strings (OScalar (SInt 1)) (OStr "1")).
  - reflexivity.
  - discriminate.
Defined.

(** ** Equal observations and their keys *)





(** ** Where keys come from *)

(** X12.  The table never holds a key that was not handed to [learn]:
    after any sequence of calls, a key of the table was a key before or is
    the [(state, action)] of one of the calls of [learn] in the
    sequence. *)
Theorem keys_come_from_learn_calls {num} `{Number num} (ag : Agent num)
    (cs : list (call num)) (k : string * Z) :
  k ∈ dom (q_table (run_calls ag cs)) →
  k ∈ dom (q_table ag)
  ∨ ∃ a o r t o', CallLearn a o r t o' ∈ cs ∧ k = (_get_state o, a).
Proof.
  unfold run_calls. revert ag.
  induction cs as [|c cs IH]; intros ag; cbn [foldl]; [by left|].
  intros Hk. apply IH in Hk as [Hk|(a & o & r & t & o' & Hin & ->)].
  - destruct c as [rnd o e|a o r t o']; cbn [run_call] in Hk.
    + rewrite action_pure in Hk. by left.
    + unfold after in Hk.
      destruct (learn_cases ag a o r t o') as [(err & new & Hrun)|(e & Hrun)];
        rewrite Hrun in Hk; cbn [snd q_table with_q_table] in Hk;
        [|by left].
      rewrite dom_insert_L in Hk.
      apply elem_of_union in Hk as [->%elem_of_singleton|Hk]; [|by left].
      right. exists a, o, r, t, o'. split; [left|done].
  - right. exists a, o, r, t, o'. split; [by right|done].
Qed.

Lemma keys_come_from_learn_calls_witness :
  ("s", 1) ∈ dom (q_table (fresh (num:=Q)))
  ∨ ∃ a o r t o',
      CallLearn a o r t o'
        ∈ [CallAction (mkDraw 0%Q 0%nat) (OStr "u") true;
           CallLearn 1 (OStr "s") 1%Q false (OStr "t")]
      ∧ ("s", 1) = (_get_state o, a).
Proof.
  apply (keys_come_from_learn_calls fresh
           [CallAction (mkDraw 0%Q 0%nat) (OStr "u") true;
            CallLearn 1 (OStr "s") 1%Q false (OStr "t")] ("s", 1)).
  by vm_compute.
Defined.
